(** * aws-cli-custom: a shallow embedding of [aws-cli-custom.py]

    The script is a command dispatcher over four cloud operations, each a
    call into the boto3 clients [ec2], [s3] and [iam] wrapped in
    [try]/[except] blocks that print a message.  The embedding keeps that
    shape: every Python function is a computation in a small monad that
    records what the process does (calls of [print], API operations
    started against the provider) and how the function ends (normal return,
    an exception that propagates, or [SystemExit]).

    The provider and the local file system are the environment: a [world]
    says how each request answers.  The three clients of lines 12-14 are
    taken as already constructed; the model starts at [main]. *)

From Stdlib Require Import String Ascii List ZArith Lia.
Import ListNotations.
Local Open Scope bool_scope.
Local Open Scope string_scope.
Local Open Scope list_scope.

(** ** Exceptions

    The classes the handlers of the script tell apart.  [OtherException]
    stands for every other subclass of Python's [Exception] (among them
    [PartialCredentialsError], imported by the script and named by no
    handler).  Each value carries the text [str(e)] gives.  The
    environment raises nothing outside [Exception] (no
    [KeyboardInterrupt]). *)

Inductive exn : Type :=
| ClientError (msg : string)
| NoCredentialsError (msg : string)
| FileNotFoundError (msg : string)
| OtherException (msg : string).

Definition str (e : exn) : string :=
  match e with
  | ClientError m | NoCredentialsError m
  | FileNotFoundError m | OtherException m => m
  end.

(** ** What the process does *)

(** [Filters=[{'Name': ..., 'Values': [...]}]] *)
Record ec2_filter : Type := mkFilter { Name : string; Values : list string }.

(** The API operations the SDK clients start against the provider.  In
    the statements below a request is one such operation: the SDK may send
    several HTTP requests for it (retries, the parts of a large upload). *)
Inductive api_call : Type :=
| DescribeInstances (Filters : list ec2_filter)
| StartInstances (InstanceIds : list string)
| StopInstances (InstanceIds : list string)
| UploadFile (Filename Bucket Key : string)
| CreatePolicy (PolicyName PolicyDocument : string).

Inductive parser_id : Type :=
| TopParser
| SubParser (name : string).

(** The messages [ArgumentParser.error] is called with:
    - [InvalidChoice v]: argument command: invalid choice: v (choose from
      the four names);
    - [MissingRequired names]: the following arguments are required:
      followed by the names, separated by a comma and a space;
    - [UnrecognizedArguments args]: unrecognized arguments: followed by
      the arguments, separated by a space;
    - [IgnoredExplicitArgument v]: argument -h/--help: ignored explicit
      argument v. *)
Inductive argparse_error : Type :=
| InvalidChoice (value : string)
| MissingRequired (names : list string)
| UnrecognizedArguments (args : list string)
| IgnoredExplicitArgument (value : string)
| OtherUsageError (message : string).

Inductive event : Type :=
| Call (c : api_call)                          (* operation started *)
| Print (text : string)                        (* one print(...), stdout *)
| PrintHelp (p : parser_id)                    (* print_help(), stdout *)
| PrintUsage (p : parser_id)                   (* print_usage(stderr) *)
| PrintError (p : parser_id) (e : argparse_error). (* "<prog>: error: ..." *)

Definition trace : Type := list event.

(** ** The monad: a trace and an ending *)

Inductive outcome (A : Type) : Type :=
| Return (a : A)          (* the function returns *)
| Raise (e : exn)         (* an Exception propagates *)
| Exit (status : Z).      (* SystemExit: not an Exception, no handler of
                             the script catches it *)
Arguments Return {A} a.
Arguments Raise {A} e.
Arguments Exit {A} status.

Definition M (A : Type) : Type := trace * outcome A.

Definition ret {A} (a : A) : M A := ([], Return a).

Definition bind {A B} (m : M A) (f : A -> M B) : M B :=
  match m with
  | (t, Return a) => let (t', o) := f a in (t ++ t', o)
  | (t, Raise e) => (t, Raise e)
  | (t, Exit n) => (t, Exit n)
  end.

Definition raise {A} (e : exn) : M A := ([], Raise e).
Definition sys_exit {A} (status : Z) : M A := ([], Exit status).
Definition emit (ev : event) : M unit := ([ev], Return tt).
Definition print (line : string) : M unit := emit (Print line).

(** [try: body  except ... as e: handler e] where the handlers together
    cover [Exception]. *)
Definition try_except {A} (body : M A) (handler : exn -> M A) : M A :=
  match body with
  | (t, Raise e) => let (t', o) := handler e in (t ++ t', o)
  | r => r
  end.

Declare Scope py_scope.
Delimit Scope py_scope with py.
Notation "x <- c1 ;; c2" := (bind c1 (fun x => c2))
  (at level 61, c1 at next level, right associativity) : py_scope.
Notation "c1 ;; c2" := (bind c1 (fun _ => c2))
  (at level 61, right associativity) : py_scope.
Local Open Scope py_scope.

Definition events {A} (m : M A) : trace := fst m.
Definition ending {A} (m : M A) : outcome A := snd m.

(** The status the interpreter leaves with: 0 after a normal return, 1
    after an uncaught exception (traceback), the given one on SystemExit. *)
Definition exit_status {A} (m : M A) : Z :=
  match ending m with
  | Return _ => 0
  | Raise _ => 1
  | Exit n => n
  end.

(** The requests of a trace, in order. *)
Definition calls (t : trace) : list api_call :=
  flat_map (fun ev => match ev with Call c => [c] | _ => [] end) t.

Definition is_state_change (c : api_call) : bool :=
  match c with
  | StartInstances _ | StopInstances _ => true
  | _ => false
  end.

(** ** The environment *)

(** [response['Reservations'][i]['Instances'][j]['InstanceId']] *)
Record instance : Type := mkInstance { InstanceId : string }.
Record reservation : Type := mkReservation { Instances : list instance }.
Record describe_response : Type :=
  mkResponse { Reservations : list reservation }.

Inductive answer (A : Type) : Type :=
| Responds (a : A)
| Faults (e : exn).
Arguments Responds {A} a.
Arguments Faults {A} e.

(** What the operating system says of a local path when the SDK looks at
    the file: the file is there; or there is no such file or directory
    (ENOENT); or the path does not name a file for another reason, with
    the text of that [OSError] (ENOTDIR when a component of the path is a
    regular file, ENAMETOOLONG). *)
Inductive local_path : Type :=
| Present
| NoSuchFile
| NoSuchPath (text : string).

Record world : Type := mkWorld {
  describe_instances_answer : list ec2_filter -> answer describe_response;
  start_instances_answer : list string -> answer unit;
  stop_instances_answer : list string -> answer unit;
  local_file : string -> local_path;
  upload_answer : string -> string -> string -> answer unit;
  create_policy_answer : string -> string -> answer unit
}.

Definition file_exists (w : world) (path : string) : bool :=
  match local_file w path with
  | Present => true
  | _ => false
  end.

Definition request {A} (c : api_call) (a : answer A) : M A :=
  emit (Call c) ;;
  match a with
  | Responds r => ret r
  | Faults e => raise e
  end.

(** ** The SDK clients

    Each client method sends one request and returns the provider's answer
    or raises the fault.  [s3.upload_file] asks for the size of the local
    file before it sends anything: for a path that does not exist the
    [OSError] of the operating system propagates, [FileNotFoundError] for
    ENOENT and another subclass of [OSError] otherwise, and nothing leaves
    the machine. *)

Module ec2.
Definition describe_instances (w : world) (Filters : list ec2_filter)
  : M describe_response :=
  request (DescribeInstances Filters) (describe_instances_answer w Filters).

Definition start_instances (w : world) (InstanceIds : list string)
  : M unit :=
  request (StartInstances InstanceIds) (start_instances_answer w InstanceIds).

Definition stop_instances (w : world) (InstanceIds : list string)
  : M unit :=
  request (StopInstances InstanceIds) (stop_instances_answer w InstanceIds).
End ec2.

Module s3.
Definition upload_file (w : world) (Filename Bucket Key : string)
  : M unit :=
  match local_file w Filename with
  | Present =>
      request (UploadFile Filename Bucket Key)
              (upload_answer w Filename Bucket Key)
  | NoSuchFile =>
      raise (FileNotFoundError
               ("[Errno 2] No such file or directory: " ++ Filename))
  | NoSuchPath text => raise (OtherException text)
  end.
End s3.

Module iam.
Definition create_policy (w : world) (PolicyName PolicyDocument : string)
  : M unit :=
  request (CreatePolicy PolicyName PolicyDocument)
          (create_policy_answer w PolicyName PolicyDocument).
End iam.

(** ** The operations (lines 17-139) *)

(** [', '.join(xs)] *)
Definition join (sep : string) (xs : list string) : string :=
  String.concat sep xs.

(** Lines 122-125: the two nested loops appending to [instance_ids]. *)
Definition collect_instance_ids (response : describe_response)
  : list string :=
  fold_left
    (fun instance_ids reservation =>
       fold_left
         (fun instance_ids instance => instance_ids ++ [InstanceId instance])
         (Instances reservation) instance_ids)
    (Reservations response) [].

(** Truth value of what the resolver returns: [None] and the empty list
    are false. *)
Definition truthy_ids (instance_ids : option (list string)) : bool :=
  match instance_ids with
  | Some (_ :: _) => true
  | _ => false
  end.

Section Operations.

Variable w : world.

Definition get_instance_id_by_name (instance_name : string)
  : M (option (list string)) :=
  try_except
    (response <- ec2.describe_instances w
                   [mkFilter "tag:Name" [instance_name]] ;;
     let instance_ids := collect_instance_ids response in
     match instance_ids with
     | [] =>
         print ("No instances found with the name: " ++ instance_name) ;;
         ret None
     | _ :: _ => ret (Some instance_ids)
     end)
    (fun e =>
       match e with
       | ClientError _ =>
           print ("Failed to retrieve instance ID: " ++ str e) ;;
           ret None
       | _ =>
           print ("Unexpected error: " ++ str e) ;;
           ret None
       end).

Definition start_ec2 (instance_name : string) : M unit :=
  try_except
    (instance_ids <- get_instance_id_by_name instance_name ;;
     match instance_ids with
     | Some ((_ :: _) as ids) =>
         ec2.start_instances w ids ;;
         print ("Starting instance(s): " ++ join ", " ids)
     | _ => ret tt
     end)
    (fun e =>
       match e with
       | ClientError _ => print ("Failed to start instance(s): " ++ str e)
       | _ => print ("Unexpected error: " ++ str e)
       end).

Definition stop_ec2 (instance_name : string) : M unit :=
  try_except
    (instance_ids <- get_instance_id_by_name instance_name ;;
     match instance_ids with
     | Some ((_ :: _) as ids) =>
         ec2.stop_instances w ids ;;
         print ("Stopping instance(s): " ++ join ", " ids)
     | _ => ret tt
     end)
    (fun e =>
       match e with
       | ClientError _ => print ("Failed to stop instance(s): " ++ str e)
       | _ => print ("Unexpected error: " ++ str e)
       end).

Definition upload_file_s3 (bucket_name file_name : string) : M unit :=
  try_except
    (s3.upload_file w file_name bucket_name file_name ;;
     print ("Uploaded " ++ file_name ++ " to " ++ bucket_name))
    (fun e =>
       match e with
       | FileNotFoundError _ => print ("File " ++ file_name ++ " not found")
       | NoCredentialsError _ => print "AWS credentials not found"
       | ClientError _ => print ("Failed to upload file to S3: " ++ str e)
       | _ => print ("Unexpected error: " ++ str e)
       end).

Definition create_policy (policy_name policy_document : string) : M unit :=
  try_except
    (_response <- iam.create_policy w policy_name policy_document ;;
     print ("Created policy " ++ policy_name))
    (fun e =>
       match e with
       | ClientError _ => print ("Failed to create policy: " ++ str e)
       | _ => print ("Unexpected error: " ++ str e)
       end).

End Operations.

(** ** The argument parser (lines 147-188)

    [args] is a [Namespace]: attributes set by name, each [None], a
    string, or the empty list (what argparse 3.11 stores for a positional
    whose only token is a second ["--"]). *)

Inductive pyval : Type :=
| PyNone
| PyStr (s : string)
| PyEmptyList.

Definition Namespace : Type := list (string * pyval).

Fixpoint getattr (args : Namespace) (name : string) : option pyval :=
  match args with
  | [] => None
  | (n, v) :: rest => if String.eqb n name then Some v else getattr rest name
  end.

(** The four [add_parser] calls with the [add_argument] calls of each, in
    the order of the script. *)
Definition subcommands : list (string * list string) :=
  [ ("start-ec2", ["instance_name"]);
    ("stop-ec2", ["instance_name"]);
    ("upload-s3", ["bucket_name"; "file_name"]);
    ("create-policy", ["policy_name"; "policy_document"]) ].

Fixpoint positionals_of (table : list (string * list string))
  (name : string) : option (list string) :=
  match table with
  | [] => None
  | (n, dests) :: rest =>
      if String.eqb n name then Some dests else positionals_of rest name
  end.

(** How [parse_args] can end: it returns the namespace; or [-h] printed
    the help of a parser and left with status 0; or a parser called
    [error], which prints its usage and the message on stderr and leaves
    with status 2. *)
Inductive parse_result : Type :=
| Parsed (args : Namespace)
| Helped (p : parser_id)
| Failed (p : parser_id) (e : argparse_error).

(** A token that starts with ['-'] may be an option string, an
    abbreviation of one, ["--"] or a negative number. *)
Definition dashed (token : string) : bool :=
  match token with
  | String "-"%char _ => true
  | _ => false
  end.

(** A command line without such tokens: every token is a positional.  The
    top parser gives all of them to the subparsers action, which checks
    the first against its choices and runs the chosen parser on the rest;
    that parser fills its positionals in order and reports the ones left
    without a value; what it did not take goes back to the top parser,
    which rejects it.  With no token at all [command] keeps its default,
    [None] (the subparsers action is not required). *)
Definition parse_positionals (argv : list string) : parse_result :=
  match argv with
  | [] => Parsed [("command", PyNone)]
  | name :: rest =>
      match positionals_of subcommands name with
      | None => Failed TopParser (InvalidChoice name)
      | Some dests =>
          if (length rest <? length dests)%nat
          then Failed (SubParser name)
                      (MissingRequired (skipn (length rest) dests))
          else if (length dests <? length rest)%nat
          then Failed TopParser
                      (UnrecognizedArguments (skipn (length dests) rest))
          else Parsed (("command", PyStr name)
                         :: combine dests (map PyStr rest))
      end
  end.

(** *** Command lines with dashed tokens

    The rest of the parser, as argparse of CPython 3.11 behaves for the two
    kinds of parser the script builds: each has the options [-h] and
    [--help] and nothing else that starts with ['-'].  Command lines are
    taken over ASCII: characters are bytes and the digits are [0] to [9]. *)

(** How a parser reads one token that is not ["--"]
    ([_parse_optional], and for an option what [consume_optional] then
    does with it): a value for a positional; the help option; the help
    option with an argument glued to it, which is an error; an option the
    parser does not have. *)
Inductive token_class : Type :=
| Value
| HelpOption
| BadOption (explicit : string)
| UnknownOption.

(** [s.split(c, 1)] when [c] is in [s]. *)
Fixpoint split_at (c : ascii) (s : string) : option (string * string) :=
  match s with
  | EmptyString => None
  | String x rest =>
      if Ascii.eqb x c then Some (EmptyString, rest)
      else match split_at c rest with
           | Some (before, after) => Some (String x before, after)
           | None => None
           end
  end.

Definition is_digit (c : ascii) : bool :=
  (48 <=? nat_of_ascii c)%nat && (nat_of_ascii c <=? 57)%nat.

Fixpoint all_digits (s : string) : bool :=
  match s with
  | EmptyString => true
  | String c rest => is_digit c && all_digits rest
  end.

Definition nonempty (s : string) : bool :=
  match s with
  | EmptyString => false
  | String _ _ => true
  end.

(** [s] without its last character, when that is a newline. *)
Fixpoint without_final_newline (s : string) : option string :=
  match s with
  | EmptyString => None
  | String c EmptyString =>
      if Ascii.eqb c (ascii_of_nat 10) then Some EmptyString else None
  | String c rest =>
      match without_final_newline rest with
      | Some rest' => Some (String c rest')
      | None => None
      end
  end.

(** The two alternatives of argparse's pattern for negative numbers: a
    dash and digits; or a dash, digits if any, a dot and digits. *)
Definition dash_number (s : string) : bool :=
  match s with
  | String "-"%char body =>
      (nonempty body && all_digits body)
      || match split_at "."%char body with
         | Some (whole, fraction) =>
             all_digits whole && nonempty fraction && all_digits fraction
         | None => false
         end
  | _ => false
  end.

(** The pattern ends with [$], which also matches before a final
    newline. *)
Definition negative_number (tok : string) : bool :=
  dash_number tok
  || match without_final_newline tok with
     | Some tok' => dash_number tok'
     | None => false
     end.

Fixpoint contains_space (s : string) : bool :=
  match s with
  | EmptyString => false
  | String c rest => Ascii.eqb c " "%char || contains_space rest
  end.

(** [-h] with the text [e] glued to it: single-dash options without
    arguments can be concatenated, so [-hh] is [-h -h]; anything else
    after the [h] is an explicit argument the help option ignores. *)
Fixpoint short_help (e : string) : token_class :=
  match e with
  | EmptyString => BadOption e
  | String c rest =>
      if Ascii.eqb c "h"%char
      then match rest with
           | EmptyString => HelpOption
           | _ => short_help rest
           end
      else BadOption e
  end.

(** A token [option=text] whose option is one the parser has. *)
Definition explicit_help (tok : string) : option token_class :=
  match split_at "="%char tok with
  | Some (option_string, explicit) =>
      if String.eqb option_string "-h" then Some (short_help explicit)
      else if String.eqb option_string "--help" then Some (BadOption explicit)
      else None
  | None => None
  end.

(** [_get_option_tuples]: a token that starts with two dashes is an
    abbreviation of [--help] when what stands before its [=] is a prefix
    of it; a token that starts with [-h] is [-h] with the rest glued. *)
Definition abbreviated_help (tok : string) : option token_class :=
  match tok with
  | String _ (String "-"%char _) =>
      match split_at "="%char tok with
      | Some (option_prefix, explicit) =>
          if String.prefix option_prefix "--help"
          then Some (BadOption explicit) else None
      | None =>
          if String.prefix tok "--help" then Some HelpOption else None
      end
  | String _ (String "h"%char rest) => Some (short_help rest)
  | _ => None
  end.

Definition classify (tok : string) : token_class :=
  if negb (dashed tok) then Value
  else if String.eqb tok "-h" || String.eqb tok "--help" then HelpOption
  else match tok with
       | String _ EmptyString => Value
       | _ =>
           match explicit_help tok with
           | Some c => c
           | None =>
               match abbreviated_help tok with
               | Some c => c
               | None =>
                   if negative_number tok then Value
                   else if contains_space tok then Value
                   else UnknownOption
               end
           end
       end.

(** What the token before the current one was, for the parser of a
    subcommand: no value, a value given to a positional, or a value left
    over. *)
Inductive last_token : Type :=
| NoValue
| Given
| Surplus.

Inductive sub_result : Type :=
| SubOk (values : list pyval) (extras : list string)
| SubHelp
| SubBad (explicit : string).

(** The tokens after the first ["--"] are all values: they fill the
    positionals left, in order.  A token that is itself ["--"] is stored
    as the empty list, except the one right after a ["--"] that opened
    the values of a positional. *)
Fixpoint after_dashes (n : nat) (literal : bool) (after : list string)
  (values : list pyval) (extras : list string)
  : list pyval * list string :=
  match after with
  | [] => (values, extras)
  | tok :: rest =>
      if (length values <? n)%nat
      then after_dashes n false rest
             (values ++ [if String.eqb tok "--" && negb literal
                         then PyEmptyList else PyStr tok])
             extras
      else after_dashes n false rest values (extras ++ [tok])
  end.

(** The parser of a subcommand with [n] positionals, token by token:
    values fill the positionals in order and the ones left over are
    extras, as are unknown options; the help option ends the parse.  The
    first ["--"] is dropped when it follows a value given to a positional,
    or when it opens the values of a positional still to fill; otherwise
    it is an extra. *)
Fixpoint sub_scan (n : nat) (rest : list string) (values : list pyval)
  (extras : list string) (last : last_token) : sub_result :=
  match rest with
  | [] => SubOk values extras
  | tok :: rest' =>
      if String.eqb tok "--" then
        let taken :=
          match last with
          | Given => true
          | Surplus => false
          | NoValue =>
              (length values <? n)%nat
              && match rest' with [] => false | _ :: _ => true end
          end in
        let literal :=
          match last with NoValue => true | _ => false end in
        let (values', extras') :=
          after_dashes n literal rest' values
                       (if taken then extras else extras ++ ["--"]) in
        SubOk values' extras'
      else
        match classify tok with
        | Value =>
            if (length values <? n)%nat
            then sub_scan n rest' (values ++ [PyStr tok]) extras Given
            else sub_scan n rest' values (extras ++ [tok]) Surplus
        | HelpOption => SubHelp
        | BadOption explicit => SubBad explicit
        | UnknownOption => sub_scan n rest' values (extras ++ [tok]) NoValue
        end
  end.

(** The end of [parse_args]: extras are an error of the top parser. *)
Definition finish (args : Namespace) (extras : list string) : parse_result :=
  match extras with
  | [] => Parsed args
  | _ :: _ => Failed TopParser (UnrecognizedArguments extras)
  end.

(** The subparsers action: the first value is checked against the four
    names, the parser of that name reads the rest, and reports the
    positionals left without a value. *)
Definition run_subcommand (name : string) (rest extras : list string)
  : parse_result :=
  match positionals_of subcommands name with
  | None => Failed TopParser (InvalidChoice name)
  | Some dests =>
      match sub_scan (length dests) rest [] [] NoValue with
      | SubHelp => Helped (SubParser name)
      | SubBad explicit =>
          Failed (SubParser name) (IgnoredExplicitArgument explicit)
      | SubOk values sub_extras =>
          if (length values <? length dests)%nat
          then Failed (SubParser name)
                      (MissingRequired (skipn (length values) dests))
          else finish (("command", PyStr name) :: combine dests values)
                      (extras ++ sub_extras)
      end
  end.

(** The top parser: options are read until the first value, which with
    all that follows goes to the subparsers action.  A ["--"] in that
    place is given to the action as the name when something follows it,
    and is an extra when it is the last token. *)
Fixpoint top_scan (argv : list string) (extras : list string)
  : parse_result :=
  match argv with
  | [] => finish [("command", PyNone)] extras
  | tok :: rest =>
      if String.eqb tok "--" then
        match rest with
        | [] => finish [("command", PyNone)] (extras ++ ["--"])
        | _ :: _ => run_subcommand tok rest extras
        end
      else
        match classify tok with
        | Value => run_subcommand tok rest extras
        | HelpOption => Helped TopParser
        | BadOption explicit =>
            Failed TopParser (IgnoredExplicitArgument explicit)
        | UnknownOption => top_scan rest (extras ++ [tok])
        end
  end.

(** [parser.parse_args()] on any command line. *)
Definition parse_command_line (argv : list string) : parse_result :=
  top_scan argv [].

(** The tokens a subcommand's parser reads as values: before the first
    ["--"] those [classify] calls values, after it all of them. *)
Fixpoint values_of (rest : list string) : list string :=
  match rest with
  | [] => []
  | tok :: rest' =>
      if String.eqb tok "--" then rest'
      else match classify tok with
           | Value => tok :: values_of rest'
           | _ => values_of rest'
           end
  end.

(** The first help option before the first ["--"], well-formed
    ([HelpOption]) or with a glued argument ([BadOption]). *)
Fixpoint help_before_dashes (rest : list string) : option token_class :=
  match rest with
  | [] => None
  | tok :: rest' =>
      if String.eqb tok "--" then None
      else match classify tok with
           | HelpOption => Some HelpOption
           | BadOption explicit => Some (BadOption explicit)
           | _ => help_before_dashes rest'
           end
  end.

Section Program.

(** What the parser does with a command line that has a dashed token:
    [parse_command_line] is argparse's reading of it.  A statement made
    for every [parse_options] holds whatever that reading is. *)
Variable parse_options : list string -> parse_result.

Variable w : world.

Definition parse_args (argv : list string) : M Namespace :=
  match (if existsb dashed argv
         then parse_options argv
         else parse_positionals argv) with
  | Parsed args => ret args
  | Helped p => emit (PrintHelp p) ;; sys_exit 0
  | Failed p e => emit (PrintUsage p) ;; emit (PrintError p e) ;; sys_exit 2
  end.

(** [args.name]; a missing attribute raises [AttributeError]. *)
Definition attr (args : Namespace) (name : string) : M pyval :=
  match getattr args name with
  | Some v => ret v
  | None =>
      raise (OtherException
               ("'Namespace' object has no attribute '" ++ name ++ "'"))
  end.

(** [v == 'literal'] *)
Definition py_eq (v : pyval) (literal : string) : bool :=
  match v with
  | PyStr s => String.eqb s literal
  | PyNone | PyEmptyList => false
  end.

(** Lines 191-216.  [not v] holds for [None], for the empty string and
    for the empty list;
    in [not a or not b] the second attribute is read only when the first
    is true. *)
Definition dispatch (args : Namespace) : M unit :=
  command <- attr args "command" ;;
  if py_eq command "start-ec2" then
    instance_name <- attr args "instance_name" ;;
    match instance_name with
    | PyNone | PyStr "" | PyEmptyList =>
        print "Error: 'instance_name' is required for start-ec2"
    | PyStr name => start_ec2 w name
    end
  else if py_eq command "stop-ec2" then
    instance_name <- attr args "instance_name" ;;
    match instance_name with
    | PyNone | PyStr "" | PyEmptyList =>
        print "Error: 'instance_name' is required for stop-ec2"
    | PyStr name => stop_ec2 w name
    end
  else if py_eq command "upload-s3" then
    bucket_name <- attr args "bucket_name" ;;
    match bucket_name with
    | PyNone | PyStr "" | PyEmptyList =>
        print "Error: Both 'bucket_name' and 'file_name' are required for upload-s3"
    | PyStr bucket =>
        file_name <- attr args "file_name" ;;
        match file_name with
        | PyNone | PyStr "" | PyEmptyList =>
            print "Error: Both 'bucket_name' and 'file_name' are required for upload-s3"
        | PyStr file => upload_file_s3 w bucket file
        end
    end
  else if py_eq command "create-policy" then
    policy_name <- attr args "policy_name" ;;
    match policy_name with
    | PyNone | PyStr "" | PyEmptyList =>
        print "Error: Both 'policy_name' and 'policy_document' are required for create-policy"
    | PyStr name =>
        policy_document <- attr args "policy_document" ;;
        match policy_document with
        | PyNone | PyStr "" | PyEmptyList =>
            print "Error: Both 'policy_name' and 'policy_document' are required for create-policy"
        | PyStr document => create_policy w name document
        end
    end
  else
    emit (PrintHelp TopParser).

(** [main()], on [sys.argv[1:]]. *)
Definition main (argv : list string) : M unit :=
  args <- parse_args argv ;;
  dispatch args.

End Program.

(** The message the dispatcher prints when a required value of a
    subcommand is missing or empty (lines 193, 199, 205, 211). *)
Definition dispatcher_error (command : string) : string :=
  if String.eqb command "start-ec2"
  then "Error: 'instance_name' is required for start-ec2"
  else if String.eqb command "stop-ec2"
  then "Error: 'instance_name' is required for stop-ec2"
  else if String.eqb command "upload-s3"
  then "Error: Both 'bucket_name' and 'file_name' are required for upload-s3"
  else "Error: Both 'policy_name' and 'policy_document' are required for create-policy".

(** ** Concrete environments, used to run the model *)

(** Two instances tagged [web-1] in two reservations, lookups of [boom]
    refused by the provider, nothing else tagged; [missing.txt] is the one
    path the operating system does not find, [a.txt/b] lies under the
    regular file [a.txt]; stop requests are refused. *)
Definition demo_world : world :=
  mkWorld
    (fun Filters =>
       match Filters with
       | [mkFilter "tag:Name" ["web-1"]] =>
           Responds (mkResponse [ mkReservation [mkInstance "i-0001"];
                                  mkReservation [];
                                  mkReservation [mkInstance "i-0002"] ])
       | [mkFilter "tag:Name" ["boom"]] =>
           Faults (ClientError "AuthFailure")
       | _ => Responds (mkResponse [])
       end)
    (fun _ => Responds tt)
    (fun _ => Faults (ClientError "UnauthorizedOperation"))
    (fun path =>
       if String.eqb path "missing.txt" then NoSuchFile
       else if String.eqb path "a.txt/b"
            then NoSuchPath "[Errno 20] Not a directory: 'a.txt/b'"
            else Present)
    (fun _ _ _ => Responds tt)
    (fun _ _ => Responds tt).

(** No credentials: every request is refused by the SDK with
    [NoCredentialsError]; every local file exists. *)
Definition offline_world : world :=
  mkWorld
    (fun _ => Faults (NoCredentialsError "Unable to locate credentials"))
    (fun _ => Faults (NoCredentialsError "Unable to locate credentials"))
    (fun _ => Faults (NoCredentialsError "Unable to locate credentials"))
    (fun _ => Present)
    (fun _ _ _ => Faults (NoCredentialsError "Unable to locate credentials"))
    (fun _ _ => Faults (NoCredentialsError "Unable to locate credentials")).

(** The document of the usage example of the script, quotes included. *)
Definition demo_document : string :=
  let q := String (ascii_of_nat 34) EmptyString in
  "{" ++ q ++ "Version" ++ q ++ ": " ++ q ++ "2012-10-17" ++ q ++ ", "
      ++ q ++ "Statement" ++ q ++ ": []}".

(** argparse's reading of dashed command lines. *)
Definition demo_options (argv : list string) : parse_result :=
  parse_command_line argv.

(** ** Statement vocabulary *)

(** The filter the resolver sends (lines 116-119). *)
Definition name_filter (instance_name : string) : list ec2_filter :=
  [mkFilter "tag:Name" [instance_name]].

(** What the two-clause handlers print for a fault: the operation's own
    text for a [ClientError], the generic one otherwise. *)
Definition report (client_text : string) (e : exn) : string :=
  match e with
  | ClientError _ => client_text ++ str e
  | _ => "Unexpected error: " ++ str e
  end.

(** What the handlers of [upload_file_s3] print (lines 70-81). *)
Definition upload_report (file_name : string) (e : exn) : string :=
  match e with
  | FileNotFoundError _ => "File " ++ file_name ++ " not found"
  | NoCredentialsError _ => "AWS credentials not found"
  | ClientError _ => "Failed to upload file to S3: " ++ str e
  | OtherException _ => "Unexpected error: " ++ str e
  end.

(** The run of an operation that sent [requests], then printed [line] and
    returned. *)
(** What [upload_file_s3] prints when the local path is not there. *)
Definition local_report (file_name : string) (status : local_path) : string :=
  match status with
  | NoSuchPath text => "Unexpected error: " ++ text
  | _ => "File " ++ file_name ++ " not found"
  end.

Definition sends_then_prints (m : M unit) (requests : list api_call)
  (line : string) : Prop :=
  m = (map Call requests ++ [Print line], Return tt).

(** The texts a trace passes to [print], one per call, in order. *)
Definition printed (t : trace) : list string :=
  flat_map (fun ev => match ev with Print line => [line] | _ => [] end) t.


(** A request whose arguments are all there: a lookup by a name that is
    not empty, a start or stop of at least one instance, an upload of a
    named file to a named bucket under the file's own path, a policy with
    a name and a document. *)
Definition has_arguments (c : api_call) : Prop :=
  match c with
  | DescribeInstances Filters =>
      exists name, name <> EmptyString /\ Filters = name_filter name
  | StartInstances ids | StopInstances ids => ids <> []
  | UploadFile Filename Bucket Key =>
      Filename <> EmptyString /\ Bucket <> EmptyString /\ Key = Filename
  | CreatePolicy PolicyName PolicyDocument =>
      PolicyName <> EmptyString /\ PolicyDocument <> EmptyString
  end.

(** ** Runs of the operations *)

Lemma fold_left_append_ids (instances : list instance) (acc : list string) :
  fold_left (fun ids i => ids ++ [InstanceId i]) instances acc
  = acc ++ map InstanceId instances.
Proof.
  revert acc.
  induction instances as [| i rest IH]; intros acc; simpl.
  - now rewrite app_nil_r.
  - rewrite IH, <- app_assoc. reflexivity.
Qed.

Lemma fold_left_reservations (reservations : list reservation)
  (acc : list string) :
  fold_left
    (fun instance_ids reservation =>
       fold_left
         (fun instance_ids instance => instance_ids ++ [InstanceId instance])
         (Instances reservation) instance_ids)
    reservations acc
  = acc ++ flat_map (fun r => map InstanceId (Instances r)) reservations.
Proof.
  revert acc.
  induction reservations as [| r rest IH]; intros acc; simpl.
  - now rewrite app_nil_r.
  - rewrite IH, fold_left_append_ids, <- app_assoc. reflexivity.
Qed.

(** The loops flatten the reservations in the order of the response. *)
Lemma collect_instance_ids_flat_map (response : describe_response) :
  collect_instance_ids response
  = flat_map (fun r => map InstanceId (Instances r)) (Reservations response).
Proof.
  unfold collect_instance_ids.
  now rewrite fold_left_reservations.
Qed.

Lemma resolver_run (w : world) (name : string) :
  get_instance_id_by_name w name
  = match describe_instances_answer w (name_filter name) with
    | Faults e =>
        ([Call (DescribeInstances (name_filter name));
          Print (report "Failed to retrieve instance ID: " e)],
         Return None)
    | Responds response =>
        match collect_instance_ids response with
        | [] =>
            ([Call (DescribeInstances (name_filter name));
              Print ("No instances found with the name: " ++ name)],
             Return None)
        | id :: ids =>
            ([Call (DescribeInstances (name_filter name))],
             Return (Some (id :: ids)))
        end
    end.
Proof.
  unfold get_instance_id_by_name, ec2.describe_instances, request, name_filter.
  destruct (describe_instances_answer w _) as [response | e]; simpl.
  - destruct (collect_instance_ids response); reflexivity.
  - destruct e; reflexivity.
Qed.

(** The resolver returns a list only when it is not empty. *)
Lemma resolver_returns_nonempty (w : world) (name : string)
  (ids : list string) :
  ending (get_instance_id_by_name w name) = Return (Some ids) ->
  ids <> [] /\
  events (get_instance_id_by_name w name)
  = [Call (DescribeInstances (name_filter name))] /\
  exists response,
    describe_instances_answer w (name_filter name) = Responds response /\
    collect_instance_ids response = ids.
Proof.
  rewrite resolver_run.
  destruct (describe_instances_answer w _) as [response | e];
    [destruct (collect_instance_ids response) as [| id rest] eqn:E |];
    simpl; intros H; try discriminate.
  injection H as <-.
  repeat split; [discriminate | now exists response].
Qed.

Lemma start_ec2_run (w : world) (name : string) :
  start_ec2 w name
  = match get_instance_id_by_name w name with
    | (t, Return (Some (id :: rest))) =>
        match start_instances_answer w (id :: rest) with
        | Responds _ =>
            (t ++ [Call (StartInstances (id :: rest));
                   Print ("Starting instance(s): " ++ join ", " (id :: rest))],
             Return tt)
        | Faults e =>
            (t ++ [Call (StartInstances (id :: rest));
                   Print (report "Failed to start instance(s): " e)],
             Return tt)
        end
    | (t, _) => (t, Return tt)
    end.
Proof.
  unfold start_ec2.
  rewrite resolver_run.
  destruct (describe_instances_answer w _) as [response | e];
    [destruct (collect_instance_ids response) as [| id rest] |];
    try reflexivity.
  unfold ec2.start_instances, request; simpl.
  destruct (start_instances_answer w (id :: rest)) as [[] | e];
    [| destruct e]; reflexivity.
Qed.

Lemma stop_ec2_run (w : world) (name : string) :
  stop_ec2 w name
  = match get_instance_id_by_name w name with
    | (t, Return (Some (id :: rest))) =>
        match stop_instances_answer w (id :: rest) with
        | Responds _ =>
            (t ++ [Call (StopInstances (id :: rest));
                   Print ("Stopping instance(s): " ++ join ", " (id :: rest))],
             Return tt)
        | Faults e =>
            (t ++ [Call (StopInstances (id :: rest));
                   Print (report "Failed to stop instance(s): " e)],
             Return tt)
        end
    | (t, _) => (t, Return tt)
    end.
Proof.
  unfold stop_ec2.
  rewrite resolver_run.
  destruct (describe_instances_answer w _) as [response | e];
    [destruct (collect_instance_ids response) as [| id rest] |];
    try reflexivity.
  unfold ec2.stop_instances, request; simpl.
  destruct (stop_instances_answer w (id :: rest)) as [[] | e];
    [| destruct e]; reflexivity.
Qed.

Lemma upload_file_s3_run (w : world) (bucket file : string) :
  upload_file_s3 w bucket file
  = if file_exists w file
    then match upload_answer w file bucket file with
         | Responds _ =>
             ([Call (UploadFile file bucket file);
               Print ("Uploaded " ++ file ++ " to " ++ bucket)],
              Return tt)
         | Faults e =>
             ([Call (UploadFile file bucket file);
               Print (upload_report file e)],
              Return tt)
         end
    else ([Print (local_report file (local_file w file))], Return tt).
Proof.
  unfold upload_file_s3, s3.upload_file, request, file_exists.
  destruct (local_file w file); [| reflexivity ..].
  destruct (upload_answer w file bucket file) as [[] | e];
    [| destruct e]; reflexivity.
Qed.

Lemma create_policy_run (w : world) (name document : string) :
  create_policy w name document
  = match create_policy_answer w name document with
    | Responds _ =>
        ([Call (CreatePolicy name document);
          Print ("Created policy " ++ name)],
         Return tt)
    | Faults e =>
        ([Call (CreatePolicy name document);
          Print (report "Failed to create policy: " e)],
         Return tt)
    end.
Proof.
  unfold create_policy, iam.create_policy, request.
  destruct (create_policy_answer w name document) as [[] | e];
    [| destruct e]; reflexivity.
Qed.

(** A response in which no reservation lists an instance yields no ID. *)
Lemma collect_nothing (response : describe_response) :
  Forall (fun r => Instances r = []) (Reservations response) ->
  collect_instance_ids response = [].
Proof.
  rewrite collect_instance_ids_flat_map.
  induction 1 as [| r rest Hr _ IH]; simpl.
  - reflexivity.
  - now rewrite Hr, IH.
Qed.

(** ** Start and stop *)

Lemma string_app_nil_r (a : string) : (a ++ EmptyString)%string = a.
Proof. induction a as [| c a IH]; simpl; [| rewrite IH]; reflexivity. Qed.

Lemma string_app_assoc (a b c : string) :
  ((a ++ b) ++ c)%string = (a ++ b ++ c)%string.
Proof. induction a as [| x a IH]; simpl; [| rewrite IH]; reflexivity. Qed.

(** [sep.join(xs)], one element at a time. *)
Lemma join_unfold (sep : string) (xs : list string) :
  join sep xs
  = match xs with
    | [] => EmptyString
    | [x] => x
    | x :: rest => (x ++ sep ++ join sep rest)%string
    end.
Proof. destruct xs as [| x [| y rest]]; reflexivity. Qed.

(** Every element stands in the joined text. *)
Lemma join_mentions (sep x : string) (xs : list string) :
  In x xs ->
  exists before after, join sep xs = (before ++ x ++ after)%string.
Proof.
  induction xs as [| y rest IH]; intros Hin; [destruct Hin |].
  rewrite join_unfold.
  destruct Hin as [-> | Hin].
  - exists EmptyString.
    destruct rest; [exists EmptyString | exists (sep ++ join sep (s :: rest))%string];
      simpl; now rewrite ?string_app_nil_r.
  - destruct (IH Hin) as (before & after & Hjoin).
    destruct rest as [| z rest]; [destruct Hin |].
    exists (y ++ sep ++ before)%string, after.
    now rewrite Hjoin, !string_app_assoc.
Qed.

(** C1: when the resolver returns one or more instance IDs, [start_ec2]
    (resp. [stop_ec2]) sends exactly one start (resp. stop) request, and its
    ID list is the whole list the resolver returned, which is every ID of
    the describe response in order; when the request succeeds the IDs are
    then reported on one line: the text printed is the fixed prefix
    followed by the IDs in order, separated by a comma and a space, so
    every ID that was started or stopped stands in it. *)
Theorem start_stop_issue_one_batched_call
  (w : world) (name : string) (ids : list string) :
  ending (get_instance_id_by_name w name) = Return (Some ids) ->
  (exists response,
      describe_instances_answer w (name_filter name) = Responds response /\
      ids = flat_map (fun r => map InstanceId (Instances r))
                     (Reservations response)) /\
  calls (events (start_ec2 w name))
  = [DescribeInstances (name_filter name); StartInstances ids] /\
  calls (events (stop_ec2 w name))
  = [DescribeInstances (name_filter name); StopInstances ids] /\
  (start_instances_answer w ids = Responds tt ->
   start_ec2 w name
   = ([Call (DescribeInstances (name_filter name));
       Call (StartInstances ids);
       Print ("Starting instance(s): " ++ join ", " ids)],
      Return tt)) /\
  (stop_instances_answer w ids = Responds tt ->
   stop_ec2 w name
   = ([Call (DescribeInstances (name_filter name));
       Call (StopInstances ids);
       Print ("Stopping instance(s): " ++ join ", " ids)],
      Return tt)) /\
  join ", " ids
  = match ids with
    | [] => EmptyString
    | [id] => id
    | id :: rest => (id ++ ", " ++ join ", " rest)%string
    end /\
  (forall id,
      In id ids ->
      exists before after,
        join ", " ids = (before ++ id ++ after)%string).
Proof.
  intros Hres.
  destruct (resolver_returns_nonempty w name ids Hres)
    as (Hne & Hev & response & Hanswer & Hids).
  split.
  { exists response. split; [exact Hanswer |].
    now rewrite <- Hids, collect_instance_ids_flat_map. }
  rewrite start_ec2_run, stop_ec2_run.
  destruct (get_instance_id_by_name w name) as [t o].
  simpl in Hres, Hev. subst t o.
  destruct ids as [| id rest]; [congruence |].
  split; [| split; [| split; [| split; [| split]]]].
  - destruct (start_instances_answer w (id :: rest)); reflexivity.
  - destruct (stop_instances_answer w (id :: rest)); reflexivity.
  - intros ->. reflexivity.
  - intros ->. reflexivity.
  - now destruct rest.
  - intros x Hin. now apply join_mentions.
Qed.

Lemma start_stop_issue_one_batched_call_witness :
  ending (get_instance_id_by_name demo_world "web-1")
  = Return (Some ["i-0001"; "i-0002"]) /\
  calls (events (start_ec2 demo_world "web-1"))
  = [DescribeInstances (name_filter "web-1");
     StartInstances ["i-0001"; "i-0002"]] /\
  start_ec2 demo_world "web-1"
  = ([Call (DescribeInstances (name_filter "web-1"));
      Call (StartInstances ["i-0001"; "i-0002"]);
      Print "Starting instance(s): i-0001, i-0002"],
     Return tt).
Proof.
  split; [reflexivity |].
  destruct (start_stop_issue_one_batched_call
              demo_world "web-1" ["i-0001"; "i-0002"] eq_refl)
    as (_ & Hcalls & _ & Hstart & _).
  split; [exact Hcalls | now apply Hstart].
Defined.

(** C2: when the describe response lists no instance for the name,
    [start_ec2] and [stop_ec2] send no start or stop request; the only
    request is the lookup, and the one line printed is
    "No instances found with the name: <name>". *)
Theorem no_match_no_state_change
  (w : world) (name : string) (response : describe_response) :
  describe_instances_answer w (name_filter name) = Responds response ->
  Forall (fun r => Instances r = []) (Reservations response) ->
  start_ec2 w name
  = ([Call (DescribeInstances (name_filter name));
      Print ("No instances found with the name: " ++ name)],
     Return tt) /\
  stop_ec2 w name
  = ([Call (DescribeInstances (name_filter name));
      Print ("No instances found with the name: " ++ name)],
     Return tt) /\
  filter is_state_change (calls (events (start_ec2 w name))) = [] /\
  filter is_state_change (calls (events (stop_ec2 w name))) = [].
Proof.
  intros Hanswer Hnone.
  apply collect_nothing in Hnone.
  rewrite start_ec2_run, stop_ec2_run, resolver_run, Hanswer, Hnone.
  repeat split.
Qed.

Lemma no_match_no_state_change_witness :
  start_ec2 demo_world "ghost"
  = ([Call (DescribeInstances (name_filter "ghost"));
      Print "No instances found with the name: ghost"],
     Return tt).
Proof.
  apply (no_match_no_state_change demo_world "ghost" (mkResponse [])).
  - reflexivity.
  - constructor.
Defined.

(** C5: when the describe request fails with any fault, the resolver
    catches it, prints it, and returns [None], which is also what it
    returns in every environment where the lookup finds no instance. *)
Theorem resolver_fault_is_no_match (w : world) (name : string) (e : exn) :
  describe_instances_answer w (name_filter name) = Faults e ->
  get_instance_id_by_name w name
  = ([Call (DescribeInstances (name_filter name));
      Print (report "Failed to retrieve instance ID: " e)],
     Return None) /\
  forall (w' : world) (response : describe_response),
    describe_instances_answer w' (name_filter name) = Responds response ->
    Forall (fun r => Instances r = []) (Reservations response) ->
    ending (get_instance_id_by_name w' name)
    = ending (get_instance_id_by_name w name).
Proof.
  intros Hfault.
  rewrite resolver_run, Hfault.
  split; [reflexivity |].
  intros w' response Hanswer Hnone.
  apply collect_nothing in Hnone.
  now rewrite resolver_run, Hanswer, Hnone.
Qed.

Lemma resolver_fault_is_no_match_witness :
  get_instance_id_by_name demo_world "boom"
  = ([Call (DescribeInstances (name_filter "boom"));
      Print "Failed to retrieve instance ID: AuthFailure"],
     Return None).
Proof.
  apply (resolver_fault_is_no_match
           demo_world "boom" (ClientError "AuthFailure")).
  reflexivity.
Defined.

(** ** Upload and policy creation *)

(** C3: [create_policy] sends exactly one request, a create-policy request
    whose document argument is the given string itself, and when the
    request succeeds the line printed is "Created policy <policy_name>". *)
Theorem create_policy_passes_document_verbatim
  (w : world) (name document : string) :
  calls (events (create_policy w name document))
  = [CreatePolicy name document] /\
  (create_policy_answer w name document = Responds tt ->
   create_policy w name document
   = ([Call (CreatePolicy name document); Print ("Created policy " ++ name)],
      Return tt)).
Proof.
  rewrite create_policy_run.
  split.
  - destruct (create_policy_answer w name document); reflexivity.
  - intros ->. reflexivity.
Qed.

Lemma create_policy_passes_document_verbatim_witness :
  create_policy demo_world "ReadOnly" demo_document
  = ([Call (CreatePolicy "ReadOnly" demo_document);
      Print "Created policy ReadOnly"],
     Return tt).
Proof.
  apply (create_policy_passes_document_verbatim
           demo_world "ReadOnly" demo_document).
  reflexivity.
Defined.

(** C4 as stated fails: the path [a.txt/b] does not exist, because
    [a.txt] is a regular file; the upload fails locally, but the line
    printed is the generic one, not "File a.txt/b not found". *)
Lemma missing_path_under_file_prints_generic_error :
  file_exists demo_world "a.txt/b" = false /\
  upload_file_s3 demo_world "my-bucket" "a.txt/b"
  = ([Print "Unexpected error: [Errno 20] Not a directory: 'a.txt/b'"],
     Return tt) /\
  upload_file_s3 demo_world "my-bucket" "a.txt/b"
  <> ([Print "File a.txt/b not found"], Return tt).
Proof. repeat split. discriminate. Qed.

(** C4, amended: when the local file does not exist, [upload_file_s3]
    sends no request and returns.  When the operating system reports that
    there is no such file or directory, the single line printed is
    "File <file_name> not found", which is none of the lines of the other
    three handlers; when the path is missing for another reason (a
    component is a regular file, the name is too long) the single line is
    the generic "Unexpected error: " followed by the text of the error. *)
Theorem upload_missing_file_fails_locally (w : world) (bucket file : string) :
  file_exists w file = false ->
  calls (events (upload_file_s3 w bucket file)) = [] /\
  ending (upload_file_s3 w bucket file) = Return tt /\
  (local_file w file = NoSuchFile ->
   upload_file_s3 w bucket file
   = ([Print ("File " ++ file ++ " not found")], Return tt) /\
   forall e : exn,
     ("File " ++ file ++ " not found" <> "AWS credentials not found")%string /\
     ("File " ++ file ++ " not found"
      <> "Failed to upload file to S3: " ++ str e)%string /\
     ("File " ++ file ++ " not found" <> "Unexpected error: " ++ str e)%string)
  /\
  (forall text,
      local_file w file = NoSuchPath text ->
      upload_file_s3 w bucket file
      = ([Print ("Unexpected error: " ++ text)], Return tt)).
Proof.
  intros Hmissing.
  rewrite upload_file_s3_run, Hmissing.
  split; [reflexivity | split; [reflexivity | split]].
  - intros ->. repeat split; simpl; discriminate.
  - intros text ->. reflexivity.
Qed.

Lemma upload_missing_file_fails_locally_witness :
  upload_file_s3 demo_world "my-bucket" "missing.txt"
  = ([Print "File missing.txt not found"], Return tt).
Proof.
  apply (upload_missing_file_fails_locally
           demo_world "my-bucket" "missing.txt");
    reflexivity.
Defined.

(** C9: the only request [upload_file_s3] can send is the upload of the
    given path to the given bucket under a key that is that same path; it
    is sent exactly when the local file exists. *)
Theorem upload_key_is_file_path (w : world) (bucket file : string) :
  calls (events (upload_file_s3 w bucket file))
  = (if file_exists w file then [UploadFile file bucket file] else []) /\
  Forall (fun c => match c with
                   | UploadFile Filename Bucket Key =>
                       Key = Filename /\ Filename = file /\ Bucket = bucket
                   | _ => False
                   end)
         (calls (events (upload_file_s3 w bucket file))).
Proof.
  rewrite upload_file_s3_run.
  destruct (file_exists w file);
    [destruct (upload_answer w file bucket file) |];
    simpl; repeat constructor.
Qed.

(** ** The dispatcher *)

Lemma bind_ret_l {A B} (a : A) (f : A -> M B) : bind (ret a) f = f a.
Proof. unfold bind, ret. now destruct (f a). Qed.

(** On a command line without dashed tokens [main] is the positional
    parse followed by the dispatch. *)
Lemma main_positionals (parse_options : list string -> parse_result)
  (w : world) (argv : list string) :
  existsb dashed argv = false ->
  main parse_options w argv
  = match parse_positionals argv with
    | Parsed args => dispatch w args
    | Helped p => ([PrintHelp p], Exit 0)
    | Failed p e => ([PrintUsage p; PrintError p e], Exit 2)
    end.
Proof.
  intros Hplain. unfold main, parse_args. rewrite Hplain.
  destruct (parse_positionals argv); try reflexivity.
  apply bind_ret_l.
Qed.

(** The names of the table, with their positionals. *)
Lemma positionals_of_subcommands (name : string) (dests : list string) :
  positionals_of subcommands name = Some dests ->
  (name = "start-ec2" /\ dests = ["instance_name"]) \/
  (name = "stop-ec2" /\ dests = ["instance_name"]) \/
  (name = "upload-s3" /\ dests = ["bucket_name"; "file_name"]) \/
  (name = "create-policy" /\ dests = ["policy_name"; "policy_document"]).
Proof.
  unfold subcommands, positionals_of.
  repeat match goal with
         | |- context [String.eqb ?a name] =>
             destruct (String.eqb_spec a name) as [<- | _]
         end;
    intros H; try discriminate; injection H as <-; tauto.
Qed.

Lemma subcommand_not_dashed (name : string) (dests : list string) :
  positionals_of subcommands name = Some dests -> dashed name = false.
Proof.
  intros H.
  destruct (positionals_of_subcommands name dests H)
    as [[-> _] | [[-> _] | [[-> _] | [-> _]]]]; reflexivity.
Qed.

(** Reads one attribute the namespace has and takes the branch. *)
Ltac dispatch_step :=
  unfold dispatch, attr; simpl getattr; cbv iota beta;
  rewrite bind_ret_l; simpl py_eq; cbv iota beta.

(** The dispatch of the namespaces the parser returns. *)
Lemma dispatch_start_ec2 (w : world) (value : string) :
  dispatch w [("command", PyStr "start-ec2"); ("instance_name", PyStr value)]
  = match value with
    | EmptyString => ([Print (dispatcher_error "start-ec2")], Return tt)
    | _ => start_ec2 w value
    end.
Proof.
  dispatch_step.
  dispatch_step. now destruct value.
Qed.

Lemma dispatch_stop_ec2 (w : world) (value : string) :
  dispatch w [("command", PyStr "stop-ec2"); ("instance_name", PyStr value)]
  = match value with
    | EmptyString => ([Print (dispatcher_error "stop-ec2")], Return tt)
    | _ => stop_ec2 w value
    end.
Proof.
  dispatch_step.
  dispatch_step. now destruct value.
Qed.

Lemma dispatch_upload_s3 (w : world) (bucket file : string) :
  dispatch w [("command", PyStr "upload-s3");
              ("bucket_name", PyStr bucket); ("file_name", PyStr file)]
  = match bucket, file with
    | EmptyString, _ | _, EmptyString =>
        ([Print (dispatcher_error "upload-s3")], Return tt)
    | _, _ => upload_file_s3 w bucket file
    end.
Proof.
  dispatch_step.
  dispatch_step.
  destruct bucket; [reflexivity |].
  dispatch_step. now destruct file.
Qed.

Lemma dispatch_create_policy (w : world) (name document : string) :
  dispatch w [("command", PyStr "create-policy");
              ("policy_name", PyStr name);
              ("policy_document", PyStr document)]
  = match name, document with
    | EmptyString, _ | _, EmptyString =>
        ([Print (dispatcher_error "create-policy")], Return tt)
    | _, _ => create_policy w name document
    end.
Proof.
  dispatch_step.
  dispatch_step.
  destruct name; [reflexivity |].
  dispatch_step. now destruct document.
Qed.

(** Every operation returns, whatever the environment answers. *)
Lemma start_ec2_returns (w : world) (name : string) :
  ending (start_ec2 w name) = Return tt.
Proof.
  rewrite start_ec2_run.
  destruct (get_instance_id_by_name w name) as [t [[[| id rest] |] | e | n]];
    try reflexivity.
  now destruct (start_instances_answer w (id :: rest)).
Qed.

Lemma stop_ec2_returns (w : world) (name : string) :
  ending (stop_ec2 w name) = Return tt.
Proof.
  rewrite stop_ec2_run.
  destruct (get_instance_id_by_name w name) as [t [[[| id rest] |] | e | n]];
    try reflexivity.
  now destruct (stop_instances_answer w (id :: rest)).
Qed.

Lemma upload_file_s3_returns (w : world) (bucket file : string) :
  ending (upload_file_s3 w bucket file) = Return tt.
Proof.
  rewrite upload_file_s3_run.
  destruct (file_exists w file); [| reflexivity].
  now destruct (upload_answer w file bucket file).
Qed.

Lemma create_policy_returns (w : world) (name document : string) :
  ending (create_policy w name document) = Return tt.
Proof.
  rewrite create_policy_run.
  now destruct (create_policy_answer w name document).
Qed.

(** ** Faults and the exit status *)

(** C6 as stated fails: [start-ec2] without its argument is a failed
    invocation, and the process leaves with status 2. *)
Lemma missing_argument_exits_nonzero :
  main demo_options demo_world ["start-ec2"]
  = ([PrintUsage (SubParser "start-ec2");
      PrintError (SubParser "start-ec2") (MissingRequired ["instance_name"])],
     Exit 2) /\
  exit_status (main demo_options demo_world ["start-ec2"]) <> 0%Z.
Proof. split; [reflexivity | discriminate]. Qed.

(** ** Command lines the parser or the dispatcher turns down *)

(** C8 as stated fails: an unrecognized subcommand ends the process with
    an error message and status 2. *)
Lemma unknown_subcommand_exits_with_error :
  main demo_options demo_world ["bogus"]
  = ([PrintUsage TopParser; PrintError TopParser (InvalidChoice "bogus")],
     Exit 2) /\
  exit_status (main demo_options demo_world ["bogus"]) <> 0%Z.
Proof. split; [reflexivity | discriminate]. Qed.

(** C8, amended: with no argument at all the program prints the help,
    sends no request and leaves with status 0; when the first token is not
    the name of a subcommand (command line without dashed tokens) the
    parser prints the usage and an invalid-choice error, no request is
    sent, and the process leaves with status 2. *)
Theorem no_or_unknown_subcommand_prints_usage
  (parse_options : list string -> parse_result) (w : world) :
  (main parse_options w [] = ([PrintHelp TopParser], Return tt) /\
   exit_status (main parse_options w []) = 0%Z) /\
  forall name values,
    existsb dashed (name :: values) = false ->
    positionals_of subcommands name = None ->
    main parse_options w (name :: values)
    = ([PrintUsage TopParser; PrintError TopParser (InvalidChoice name)],
       Exit 2) /\
    calls (events (main parse_options w (name :: values))) = [] /\
    exit_status (main parse_options w (name :: values)) = 2%Z.
Proof.
  split; [split; reflexivity |].
  intros name values Hplain Hname.
  rewrite (main_positionals parse_options w _ Hplain).
  unfold parse_positionals. rewrite Hname.
  repeat split.
Qed.

Lemma no_or_unknown_subcommand_prints_usage_witness :
  main demo_options demo_world ["start"; "web-1"]
  = ([PrintUsage TopParser; PrintError TopParser (InvalidChoice "start")],
     Exit 2).
Proof.
  apply (no_or_unknown_subcommand_prints_usage demo_options demo_world);
    reflexivity.
Defined.

(** * Further properties of the operations and of the dispatcher *)

(** ** The resolver (lines 106-139) *)

(** X1: when the describe response lists at least one instance, the
    resolver returns the instance IDs of all reservations, flattened in the
    order of the response (reservations without instances contribute
    nothing, repeated IDs are kept), after the one lookup request and
    without printing anything. *)
Theorem resolver_returns_ids_in_response_order
  (w : world) (name : string) (response : describe_response) :
  describe_instances_answer w (name_filter name) = Responds response ->
  flat_map (fun r => map InstanceId (Instances r)) (Reservations response)
  <> [] ->
  get_instance_id_by_name w name
  = ([Call (DescribeInstances (name_filter name))],
     Return (Some (flat_map (fun r => map InstanceId (Instances r))
                            (Reservations response)))).
Proof.
  intros Hanswer Hsome.
  rewrite resolver_run, Hanswer, collect_instance_ids_flat_map.
  destruct (flat_map _ _); [congruence | reflexivity].
Qed.

Lemma resolver_returns_ids_in_response_order_witness :
  get_instance_id_by_name demo_world "web-1"
  = ([Call (DescribeInstances (name_filter "web-1"))],
     Return (Some ["i-0001"; "i-0002"])).
Proof.
  apply (resolver_returns_ids_in_response_order demo_world "web-1"
           (mkResponse [ mkReservation [mkInstance "i-0001"];
                         mkReservation [];
                         mkReservation [mkInstance "i-0002"] ])).
  - reflexivity.
  - discriminate.
Defined.

(** X2: in every environment the resolver sends exactly one request, the
    lookup filtered on the tag [Name] with the given name as its only
    value, and returns: either [None] after exactly one call of [print],
    or a list that is not empty without any call of [print].  It never
    raises. *)
Theorem resolver_sends_one_lookup_and_returns (w : world) (name : string) :
  calls (events (get_instance_id_by_name w name))
  = [DescribeInstances [mkFilter "tag:Name" [name]]] /\
  ((ending (get_instance_id_by_name w name) = Return None /\
    length (printed (events (get_instance_id_by_name w name))) = 1%nat) \/
   (exists id ids,
       ending (get_instance_id_by_name w name) = Return (Some (id :: ids)) /\
       printed (events (get_instance_id_by_name w name)) = [])).
Proof.
  rewrite resolver_run. change (name_filter name)
    with [mkFilter "tag:Name" [name]].
  destruct (describe_instances_answer w _) as [response | e];
    [destruct (collect_instance_ids response) as [| id ids] |];
    (split; [reflexivity |]).
  - left. split; reflexivity.
  - right. exists id, ids. split; reflexivity.
  - left. split; reflexivity.
Qed.

(** ** Start and stop (lines 17-56) *)

(** X3: the requests of [start_ec2] are the lookup, followed by one start
    request exactly when the resolver returned a list; those of [stop_ec2]
    are the lookup, followed by one stop request in the same case.
    [start_ec2] never sends a stop request and [stop_ec2] never sends a
    start request. *)
Theorem start_stop_requests (w : world) (name : string) :
  calls (events (start_ec2 w name))
  = DescribeInstances (name_filter name)
      :: match ending (get_instance_id_by_name w name) with
         | Return (Some ids) => [StartInstances ids]
         | _ => []
         end /\
  calls (events (stop_ec2 w name))
  = DescribeInstances (name_filter name)
      :: match ending (get_instance_id_by_name w name) with
         | Return (Some ids) => [StopInstances ids]
         | _ => []
         end /\
  forall ids,
    ~ In (StopInstances ids) (calls (events (start_ec2 w name))) /\
    ~ In (StartInstances ids) (calls (events (stop_ec2 w name))).
Proof.
  rewrite start_ec2_run, stop_ec2_run, resolver_run.
  destruct (describe_instances_answer w _) as [response | e];
    [destruct (collect_instance_ids response) as [| id rest] |];
    try (repeat split; simpl; intros [H | [H | []]] || intros [H | []];
         discriminate).
  destruct (start_instances_answer w (id :: rest)),
           (stop_instances_answer w (id :: rest));
    repeat split; simpl; intros [H | [H | []]]; discriminate.
Qed.

(** X4: every run of each of the four operations calls [print] exactly
    once, whatever the environment answers (the text printed may itself
    span several lines when a name or the text of a fault contains a
    newline). *)
Theorem operations_print_once (w : world) :
  (forall name,
      length (printed (events (start_ec2 w name))) = 1%nat /\
      length (printed (events (stop_ec2 w name))) = 1%nat) /\
  (forall bucket file,
      length (printed (events (upload_file_s3 w bucket file))) = 1%nat) /\
  (forall name document,
      length (printed (events (create_policy w name document))) = 1%nat).
Proof.
  split; [intros name; split | split; [intros bucket file | intros name document]].
  - rewrite start_ec2_run, resolver_run.
    destruct (describe_instances_answer w _) as [response | e];
      [destruct (collect_instance_ids response) as [| id rest] |];
      try reflexivity.
    now destruct (start_instances_answer w (id :: rest)).
  - rewrite stop_ec2_run, resolver_run.
    destruct (describe_instances_answer w _) as [response | e];
      [destruct (collect_instance_ids response) as [| id rest] |];
      try reflexivity.
    now destruct (stop_instances_answer w (id :: rest)).
  - rewrite upload_file_s3_run.
    destruct (file_exists w file); [| reflexivity].
    now destruct (upload_answer w file bucket file).
  - rewrite create_policy_run.
    now destruct (create_policy_answer w name document).
Qed.

(** ** The dispatcher (lines 142-216) *)

Lemma bind_raise_l {A B} (e : exn) (f : A -> M B) :
  bind (raise e) f = ([], Raise e).
Proof. reflexivity. Qed.

(** What the dispatch of any namespace is: an attribute is missing and
    [AttributeError] propagates before anything else happened; or one line
    is printed; or the help is printed; or one operation runs, on values
    that are not empty. *)
Lemma dispatch_cases (w : world) (args : Namespace) :
  (exists e, dispatch w args = ([], Raise e)) \/
  (exists line, dispatch w args = ([Print line], Return tt)) \/
  dispatch w args = ([PrintHelp TopParser], Return tt) \/
  (exists a s, dispatch w args = start_ec2 w (String a s)) \/
  (exists a s, dispatch w args = stop_ec2 w (String a s)) \/
  (exists a s b t,
      dispatch w args = upload_file_s3 w (String a s) (String b t)) \/
  (exists a s b t,
      dispatch w args = create_policy w (String a s) (String b t)).
Proof.
  unfold dispatch, attr.
  destruct (getattr args "command") as [command |];
    [rewrite bind_ret_l | left; eexists; apply bind_raise_l].
  destruct (py_eq command "start-ec2").
  { destruct (getattr args "instance_name") as [[| [| a s] |] |];
      [rewrite bind_ret_l .. | left; eexists; apply bind_raise_l];
      try solve [right; left; eexists; reflexivity].
    do 3 right; left. now exists a, s. }
  destruct (py_eq command "stop-ec2").
  { destruct (getattr args "instance_name") as [[| [| a s] |] |];
      [rewrite bind_ret_l .. | left; eexists; apply bind_raise_l];
      try solve [right; left; eexists; reflexivity].
    do 4 right; left. now exists a, s. }
  destruct (py_eq command "upload-s3").
  { destruct (getattr args "bucket_name") as [[| [| a s] |] |];
      [rewrite bind_ret_l .. | left; eexists; apply bind_raise_l];
      try solve [right; left; eexists; reflexivity].
    destruct (getattr args "file_name") as [[| [| b t] |] |];
      [rewrite bind_ret_l .. | left; eexists; apply bind_raise_l];
      try solve [right; left; eexists; reflexivity].
    do 5 right; left. now exists a, s, b, t. }
  destruct (py_eq command "create-policy").
  { destruct (getattr args "policy_name") as [[| [| a s] |] |];
      [rewrite bind_ret_l .. | left; eexists; apply bind_raise_l];
      try solve [right; left; eexists; reflexivity].
    destruct (getattr args "policy_document") as [[| [| b t] |] |];
      [rewrite bind_ret_l .. | left; eexists; apply bind_raise_l];
      try solve [right; left; eexists; reflexivity].
    do 6 right. now exists a, s, b, t. }
  do 2 right; left. reflexivity.
Qed.

(** [main] is the parse followed, when it returns, by the dispatch. *)
Lemma main_cases (parse_options : list string -> parse_result) (w : world)
  (argv : list string) :
  (exists args, main parse_options w argv = dispatch w args) \/
  (exists p, main parse_options w argv = ([PrintHelp p], Exit 0)) \/
  (exists p e,
      main parse_options w argv = ([PrintUsage p; PrintError p e], Exit 2)).
Proof.
  unfold main, parse_args.
  destruct (if existsb dashed argv then parse_options argv
            else parse_positionals argv) as [args | p | p e].
  - left. exists args. apply bind_ret_l.
  - right; left. now exists p.
  - right; right. now exists p, e.
Qed.

(** The requests of each operation, by cases. *)
Lemma start_ec2_calls (w : world) (name : string) :
  calls (events (start_ec2 w name)) = [DescribeInstances (name_filter name)] \/
  exists id rest,
    calls (events (start_ec2 w name))
    = [DescribeInstances (name_filter name); StartInstances (id :: rest)].
Proof.
  rewrite start_ec2_run, resolver_run.
  destruct (describe_instances_answer w _) as [response | e];
    [destruct (collect_instance_ids response) as [| id rest] |];
    try (now left).
  right. exists id, rest.
  now destruct (start_instances_answer w (id :: rest)).
Qed.

Lemma stop_ec2_calls (w : world) (name : string) :
  calls (events (stop_ec2 w name)) = [DescribeInstances (name_filter name)] \/
  exists id rest,
    calls (events (stop_ec2 w name))
    = [DescribeInstances (name_filter name); StopInstances (id :: rest)].
Proof.
  rewrite stop_ec2_run, resolver_run.
  destruct (describe_instances_answer w _) as [response | e];
    [destruct (collect_instance_ids response) as [| id rest] |];
    try (now left).
  right. exists id, rest.
  now destruct (stop_instances_answer w (id :: rest)).
Qed.

Lemma upload_file_s3_calls (w : world) (bucket file : string) :
  calls (events (upload_file_s3 w bucket file))
  = if file_exists w file then [UploadFile file bucket file] else [].
Proof.
  rewrite upload_file_s3_run.
  destruct (file_exists w file); [| reflexivity].
  now destruct (upload_answer w file bucket file).
Qed.

Lemma create_policy_calls (w : world) (name document : string) :
  calls (events (create_policy w name document))
  = [CreatePolicy name document].
Proof.
  rewrite create_policy_run.
  now destruct (create_policy_answer w name document).
Qed.

(** X5: a command line that names a subcommand and gives one value that is
    neither empty nor dashed for each of its positionals runs exactly the
    operation of that subcommand on those values, in the order given. *)
Theorem main_runs_the_operation
  (parse_options : list string -> parse_result) (w : world)
  (first second : string) :
  first <> EmptyString -> second <> EmptyString ->
  dashed first = false -> dashed second = false ->
  main parse_options w ["start-ec2"; first] = start_ec2 w first /\
  main parse_options w ["stop-ec2"; first] = stop_ec2 w first /\
  main parse_options w ["upload-s3"; first; second]
  = upload_file_s3 w first second /\
  main parse_options w ["create-policy"; first; second]
  = create_policy w first second.
Proof.
  intros Hfirst Hsecond Hdash1 Hdash2.
  rewrite !main_positionals by (simpl; now rewrite ?Hdash1, ?Hdash2).
  change (parse_positionals ["start-ec2"; first])
    with (Parsed [("command", PyStr "start-ec2");
                  ("instance_name", PyStr first)]).
  change (parse_positionals ["stop-ec2"; first])
    with (Parsed [("command", PyStr "stop-ec2");
                  ("instance_name", PyStr first)]).
  change (parse_positionals ["upload-s3"; first; second])
    with (Parsed [("command", PyStr "upload-s3");
                  ("bucket_name", PyStr first); ("file_name", PyStr second)]).
  change (parse_positionals ["create-policy"; first; second])
    with (Parsed [("command", PyStr "create-policy");
                  ("policy_name", PyStr first);
                  ("policy_document", PyStr second)]).
  cbv iota.
  rewrite dispatch_start_ec2, dispatch_stop_ec2, dispatch_upload_s3,
    dispatch_create_policy.
  destruct first; [congruence |]. destruct second; [congruence |].
  repeat split.
Qed.

Lemma main_runs_the_operation_witness :
  main demo_options demo_world ["upload-s3"; "my-bucket"; "a.txt"]
  = upload_file_s3 demo_world "my-bucket" "a.txt".
Proof.
  apply (main_runs_the_operation demo_options demo_world "my-bucket" "a.txt");
    (discriminate || reflexivity).
Defined.

(** X7: for every command line, whatever the parser does with dashed
    tokens and whatever the environment answers: when the process leaves
    with a status other than 0, no request was sent to the provider. *)
Theorem nonzero_exit_sends_nothing
  (parse_options : list string -> parse_result) (w : world)
  (argv : list string) :
  exit_status (main parse_options w argv) <> 0%Z ->
  calls (events (main parse_options w argv)) = [].
Proof.
  unfold exit_status.
  destruct (main_cases parse_options w argv)
    as [[args ->] | [[p ->] | (p & e & ->)]]; try reflexivity.
  destruct (dispatch_cases w args)
    as [[e ->] | [[line ->] | [-> | [(a & s & ->) | [(a & s & ->)
       | [(a & s & b & t & ->) | (a & s & b & t & ->)]]]]]];
    try reflexivity.
  - now rewrite start_ec2_returns.
  - now rewrite stop_ec2_returns.
  - now rewrite upload_file_s3_returns.
  - now rewrite create_policy_returns.
Qed.

Lemma nonzero_exit_sends_nothing_witness :
  exit_status (main demo_options demo_world ["stop-ec2"]) <> 0%Z /\
  calls (events (main demo_options demo_world ["stop-ec2"])) = [].
Proof.
  split; [discriminate |].
  apply (nonzero_exit_sends_nothing demo_options demo_world).
  discriminate.
Defined.

(** X8: for every command line, every request the program sends has its
    arguments: the lookup is by a name that is not empty, a start or stop
    request carries at least one instance ID, an upload names a file and a
    bucket that are not empty and uses the file path as key, a policy has
    a name and a document that are not empty. *)
Theorem requests_have_arguments
  (parse_options : list string -> parse_result) (w : world)
  (argv : list string) :
  Forall has_arguments (calls (events (main parse_options w argv))).
Proof.
  destruct (main_cases parse_options w argv)
    as [[args ->] | [[p ->] | (p & e & ->)]]; try constructor.
  destruct (dispatch_cases w args)
    as [[e ->] | [[line ->] | [-> | [(a & s & ->) | [(a & s & ->)
       | [(a & s & b & t & ->) | (a & s & b & t & ->)]]]]]];
    try constructor.
  - destruct (start_ec2_calls w (String a s)) as [-> | (id & rest & ->)];
      repeat constructor; try discriminate;
      (exists (String a s); split; [discriminate | reflexivity]).
  - destruct (stop_ec2_calls w (String a s)) as [-> | (id & rest & ->)];
      repeat constructor; try discriminate;
      (exists (String a s); split; [discriminate | reflexivity]).
  - rewrite upload_file_s3_calls.
    destruct (file_exists w (String b t)); repeat constructor; discriminate.
  - rewrite create_policy_calls. repeat constructor; discriminate.
Qed.


(** X10: missing credentials are named only by the upload: when a request
    is refused with [NoCredentialsError], [upload_file_s3] prints the fixed
    line "AWS credentials not found", while [create_policy], [start_ec2]
    and [stop_ec2] print it as an unexpected error followed by the text of
    the exception. *)
Theorem missing_credentials_reports (w : world) (text : string) :
  (forall bucket file,
      file_exists w file = true ->
      upload_answer w file bucket file = Faults (NoCredentialsError text) ->
      printed (events (upload_file_s3 w bucket file))
      = ["AWS credentials not found"]) /\
  (forall name document,
      create_policy_answer w name document
      = Faults (NoCredentialsError text) ->
      printed (events (create_policy w name document))
      = [("Unexpected error: " ++ text)%string]) /\
  (forall name,
      describe_instances_answer w (name_filter name)
      = Faults (NoCredentialsError text) ->
      printed (events (start_ec2 w name)) = [("Unexpected error: " ++ text)%string] /\
      printed (events (stop_ec2 w name)) = [("Unexpected error: " ++ text)%string]).
Proof.
  split; [| split].
  - intros bucket file Hexists Hfault.
    now rewrite upload_file_s3_run, Hexists, Hfault.
  - intros name document Hfault.
    now rewrite create_policy_run, Hfault.
  - intros name Hfault.
    now rewrite start_ec2_run, stop_ec2_run, resolver_run, Hfault.
Qed.

Lemma missing_credentials_reports_witness :
  printed (events (upload_file_s3 offline_world "my-bucket" "a.txt"))
  = ["AWS credentials not found"] /\
  printed (events (start_ec2 offline_world "web-1"))
  = ["Unexpected error: Unable to locate credentials"].
Proof.
  destruct (missing_credentials_reports
              offline_world "Unable to locate credentials")
    as (Hupload & _ & Hstart).
  split.
  - now apply Hupload.
  - now apply Hstart.
Defined.

(** * The parser on every command line *)

Lemma plain_token (tok : string) :
  dashed tok = false -> String.eqb tok "--" = false /\ classify tok = Value.
Proof.
  intros H. split.
  - destruct (String.eqb_spec tok "--") as [-> |]; [discriminate | reflexivity].
  - unfold classify. now rewrite H.
Qed.

Lemma sub_scan_plain (n : nat) (rest : list string) (values : list pyval)
  (extras : list string) (last : last_token) :
  existsb dashed rest = false ->
  sub_scan n rest values extras last
  = SubOk (values ++ map PyStr (firstn (n - length values) rest))
          (extras ++ skipn (n - length values) rest).
Proof.
  revert values extras last.
  induction rest as [| tok rest IH]; intros values extras last Hplain.
  - simpl. rewrite firstn_nil, skipn_nil, !app_nil_r. reflexivity.
  - simpl in Hplain. apply Bool.orb_false_iff in Hplain as [Htok Hrest].
    destruct (plain_token tok Htok) as [Hdd Hclass].
    simpl. rewrite Hdd, Hclass.
    destruct (Nat.ltb_spec (length values) n) as [Hlt | Hge].
    + rewrite (IH _ _ _ Hrest), length_app. simpl.
      replace (n - length values)%nat with (S (n - (length values + 1)))
        by lia.
      simpl. now rewrite <- app_assoc.
    + rewrite (IH _ _ _ Hrest).
      replace (n - length values)%nat with 0%nat by lia.
      simpl. now rewrite app_nil_r, <- app_assoc.
Qed.

(** On a command line without dashed tokens the parser is the positional
    parse. *)
Lemma parse_command_line_plain (argv : list string) :
  existsb dashed argv = false ->
  parse_command_line argv = parse_positionals argv.
Proof.
  destruct argv as [| name rest]; [reflexivity |].
  intros Hplain. simpl in Hplain.
  apply Bool.orb_false_iff in Hplain as [Hname Hrest].
  destruct (plain_token name Hname) as [Hdd Hclass].
  unfold parse_command_line, parse_positionals. simpl top_scan.
  rewrite Hdd, Hclass. unfold run_subcommand.
  destruct (positionals_of subcommands name) as [dests |]; [| reflexivity].
  rewrite (sub_scan_plain _ _ _ _ _ Hrest). simpl app.
  rewrite Nat.sub_0_r, length_map, length_firstn.
  destruct (Nat.ltb_spec (length rest) (length dests)) as [Hlt | Hge].
  - rewrite Nat.min_r by lia.
    now destruct (Nat.ltb_spec (length rest) (length dests)); [| lia].
  - rewrite Nat.min_l by lia. rewrite Nat.ltb_irrefl.
    destruct (Nat.ltb_spec (length dests) (length rest)) as [Hmore | Hle].
    + destruct (skipn (length dests) rest) eqn:Hskip; [| reflexivity].
      apply (f_equal (@length string)) in Hskip.
      rewrite length_skipn in Hskip. simpl in Hskip. lia.
    + rewrite skipn_all2, firstn_all2 by lia. reflexivity.
Qed.

(** [main] on every command line: the parse, then the dispatch. *)
Lemma main_parse_command_line (w : world) (argv : list string) :
  main parse_command_line w argv
  = match parse_command_line argv with
    | Parsed args => dispatch w args
    | Helped p => ([PrintHelp p], Exit 0)
    | Failed p e => ([PrintUsage p; PrintError p e], Exit 2)
    end.
Proof.
  unfold main, parse_args.
  destruct (existsb dashed argv) eqn:Hplain;
    [| rewrite <- (parse_command_line_plain argv Hplain)];
    destruct (parse_command_line argv); try reflexivity; apply bind_ret_l.
Qed.

Lemma after_dashes_spec (n : nat) (literal : bool) (after : list string)
  (values : list pyval) (extras : list string) :
  (length values <= n)%nat ->
  Forall (fun v => v <> PyNone) values ->
  length (fst (after_dashes n literal after values extras))
  = Nat.min n (length values + length after) /\
  Forall (fun v => v <> PyNone)
         (fst (after_dashes n literal after values extras)).
Proof.
  revert literal values extras.
  induction after as [| tok rest IH]; intros literal values extras Hle Hnn.
  - simpl. split; [lia | exact Hnn].
  - simpl. destruct (Nat.ltb_spec (length values) n) as [Hlt | Hge].
    + destruct (IH false
                  (values ++ [if String.eqb tok "--" && negb literal
                              then PyEmptyList else PyStr tok]) extras)
        as [Hlen Hall].
      * rewrite length_app. simpl. lia.
      * apply Forall_app. split; [exact Hnn |].
        constructor; [| constructor].
        destruct (String.eqb tok "--" && negb literal); discriminate.
      * rewrite length_app in Hlen. simpl in Hlen.
        split; [rewrite Hlen; lia | exact Hall].
    + destruct (IH false values (extras ++ [tok]) Hle Hnn) as [Hlen Hall].
      split; [rewrite Hlen; lia | exact Hall].
Qed.

(** What the parser of a subcommand does with any tokens: the first help
    option before the first ["--"] ends the parse; without one, the
    values fill the positionals in order, as far as they go. *)
Lemma sub_scan_spec (n : nat) (rest : list string) (values : list pyval)
  (extras : list string) (last : last_token) :
  (length values <= n)%nat ->
  Forall (fun v => v <> PyNone) values ->
  match help_before_dashes rest with
  | Some HelpOption => sub_scan n rest values extras last = SubHelp
  | Some (BadOption explicit) =>
      sub_scan n rest values extras last = SubBad explicit
  | _ =>
      exists values' extras',
        sub_scan n rest values extras last = SubOk values' extras' /\
        length values'
        = Nat.min n (length values + length (values_of rest)) /\
        Forall (fun v => v <> PyNone) values'
  end.
Proof.
  revert values extras last.
  induction rest as [| tok rest IH]; intros values extras last Hle Hnn.
  - simpl. exists values, extras. repeat split; [lia | exact Hnn].
  - simpl. destruct (String.eqb tok "--").
    + destruct (after_dashes_spec n
                  match last with NoValue => true | _ => false end
                  rest values
                  (if match last with
                      | Given => true
                      | Surplus => false
                      | NoValue =>
                          (length values <? n)%nat
                          && match rest with [] => false | _ :: _ => true end
                      end
                   then extras else extras ++ ["--"]) Hle Hnn)
        as [Hlen Hall].
      destruct (after_dashes _ _ _ _ _) as [values' extras'].
      exists values', extras'. repeat split; assumption.
    + destruct (classify tok) as [| | explicit |]; try reflexivity.
      * destruct (Nat.ltb_spec (length values) n) as [Hlt | Hge].
        -- specialize (IH (values ++ [PyStr tok]) extras Given).
           rewrite length_app in IH. simpl in IH.
           assert (Hle' : (length values + 1 <= n)%nat) by lia.
           assert (Hnn' : Forall (fun v => v <> PyNone)
                                 (values ++ [PyStr tok])).
           { apply Forall_app. split; [exact Hnn |].
             constructor; [discriminate | constructor]. }
           specialize (IH Hle' Hnn').
           destruct (help_before_dashes rest) as [[| | explicit |] |];
             try exact IH;
             destruct IH as (values' & extras' & Hscan & Hlen & Hall);
             exists values', extras'; simpl;
             (repeat split; [exact Hscan | lia | exact Hall]).
        -- specialize (IH values (extras ++ [tok]) Surplus Hle Hnn).
           destruct (help_before_dashes rest) as [[| | explicit |] |];
             try exact IH;
             destruct IH as (values' & extras' & Hscan & Hlen & Hall);
             exists values', extras'; simpl;
             (repeat split; [exact Hscan | lia | exact Hall]).
      * apply (IH values (extras ++ [tok]) NoValue Hle Hnn).
Qed.

Lemma sub_scan_ok (n : nat) (rest : list string) (values' : list pyval)
  (extras' : list string) :
  sub_scan n rest [] [] NoValue = SubOk values' extras' ->
  length values' = Nat.min n (length (values_of rest)) /\
  Forall (fun v => v <> PyNone) values' /\
  help_before_dashes rest = None.
Proof.
  intros Hscan.
  pose proof (sub_scan_spec n rest [] [] NoValue (Nat.le_0_l n)
                (Forall_nil _)) as Hspec.
  assert (Hnone : forall t, help_before_dashes t = None \/
                            help_before_dashes t = Some HelpOption \/
                            exists e, help_before_dashes t = Some (BadOption e)).
  { induction t as [| tok t IHt]; simpl; [now left |].
    destruct (String.eqb tok "--"); [now left |].
    destruct (classify tok); eauto. }
  destruct (Hnone rest) as [H | [H | [e H]]]; rewrite H in Hspec.
  - destruct Hspec as (v & x & Hscan' & Hlen & Hall).
    rewrite Hscan in Hscan'. injection Hscan' as <- <-.
    repeat split; assumption.
  - congruence.
  - congruence.
Qed.

(** A name of the table is read as a value by the top parser. *)
Lemma parse_named (name : string) (dests rest : list string) :
  positionals_of subcommands name = Some dests ->
  parse_command_line (name :: rest) = run_subcommand name rest [].
Proof.
  intros Hname.
  destruct (positionals_of_subcommands name dests Hname)
    as [[-> _] | [[-> _] | [[-> _] | [-> _]]]]; reflexivity.
Qed.

(** The namespaces that [run_subcommand] returns. *)
Lemma run_subcommand_parsed (name : string) (rest extras : list string)
  (args : Namespace) :
  run_subcommand name rest extras = Parsed args ->
  exists dests values,
    positionals_of subcommands name = Some dests /\
    length values = length dests /\
    Forall (fun v => v <> PyNone) values /\
    args = ("command", PyStr name) :: combine dests values.
Proof.
  unfold run_subcommand.
  destruct (positionals_of subcommands name) as [dests |]; [| discriminate].
  destruct (sub_scan (length dests) rest [] [] NoValue)
    as [values sub_extras | |] eqn:Hscan; try discriminate.
  destruct (sub_scan_ok _ _ _ _ Hscan) as (Hlen & Hall & _).
  destruct (Nat.ltb_spec (length values) (length dests)) as [| Hge];
    [discriminate |].
  unfold finish. destruct (extras ++ sub_extras); [| discriminate].
  intros H. injection H as <-.
  exists dests, values. repeat split; [lia | exact Hall].
Qed.

(** The namespaces the parser returns: no command, or the name of a
    subcommand with a value for each of its positionals. *)
Lemma parse_command_line_parsed (argv : list string) (args : Namespace) :
  parse_command_line argv = Parsed args ->
  args = [("command", PyNone)] \/
  exists name dests values,
    positionals_of subcommands name = Some dests /\
    length values = length dests /\
    Forall (fun v => v <> PyNone) values /\
    args = ("command", PyStr name) :: combine dests values.
Proof.
  unfold parse_command_line. generalize (@nil string) as extras.
  induction argv as [| tok rest IH]; intros extras; simpl.
  - unfold finish. destruct extras; [| discriminate].
    intros H. injection H as <-. now left.
  - destruct (String.eqb tok "--").
    + destruct rest.
      * unfold finish. destruct (extras ++ ["--"]); [| discriminate].
        intros H. injection H as <-. now left.
      * intros H. right. exists tok.
        exact (run_subcommand_parsed _ _ _ _ H).
    + destruct (classify tok); try discriminate.
      * intros H. right. exists tok.
        exact (run_subcommand_parsed _ _ _ _ H).
      * apply IH.
Qed.

(** The dispatch of a namespace with a command and its values. *)
Lemma dispatch_one_value (w : world) (v : pyval) :
  dispatch w [("command", PyStr "start-ec2"); ("instance_name", v)]
  = match v with
    | PyStr (String a s) => start_ec2 w (String a s)
    | _ => ([Print (dispatcher_error "start-ec2")], Return tt)
    end /\
  dispatch w [("command", PyStr "stop-ec2"); ("instance_name", v)]
  = match v with
    | PyStr (String a s) => stop_ec2 w (String a s)
    | _ => ([Print (dispatcher_error "stop-ec2")], Return tt)
    end.
Proof.
  split; dispatch_step; dispatch_step; now destruct v as [| [| a s] |].
Qed.

Lemma dispatch_two_values (w : world) (v1 v2 : pyval) :
  dispatch w [("command", PyStr "upload-s3");
              ("bucket_name", v1); ("file_name", v2)]
  = match v1, v2 with
    | PyStr (String a s), PyStr (String b t) =>
        upload_file_s3 w (String a s) (String b t)
    | _, _ => ([Print (dispatcher_error "upload-s3")], Return tt)
    end /\
  dispatch w [("command", PyStr "create-policy");
              ("policy_name", v1); ("policy_document", v2)]
  = match v1, v2 with
    | PyStr (String a s), PyStr (String b t) =>
        create_policy w (String a s) (String b t)
    | _, _ => ([Print (dispatcher_error "create-policy")], Return tt)
    end.
Proof.
  split; dispatch_step; dispatch_step;
    destruct v1 as [| [| a s] |]; try reflexivity;
    dispatch_step; now destruct v2 as [| [| b t] |].
Qed.

(** The dispatch of what the parser returns always returns. *)
Lemma dispatch_returns (w : world) (argv : list string) (args : Namespace) :
  parse_command_line argv = Parsed args ->
  ending (dispatch w args) = Return tt.
Proof.
  intros H.
  destruct (parse_command_line_parsed argv args H)
    as [-> | (name & dests & values & Hname & Hlen & _ & ->)];
    [reflexivity |].
  destruct (positionals_of_subcommands name dests Hname)
    as [[-> ->] | [[-> ->] | [[-> ->] | [-> ->]]]];
    destruct values as [| v1 [| v2 [| v3 values]]]; try discriminate Hlen;
    simpl combine.
  - rewrite (proj1 (dispatch_one_value w v1)).
    destruct v1 as [| [| a s] |]; try reflexivity. apply start_ec2_returns.
  - rewrite (proj2 (dispatch_one_value w v1)).
    destruct v1 as [| [| a s] |]; try reflexivity. apply stop_ec2_returns.
  - rewrite (proj1 (dispatch_two_values w v1 v2)).
    destruct v1 as [| [| a s] |], v2 as [| [| b t] |]; try reflexivity.
    apply upload_file_s3_returns.
  - rewrite (proj2 (dispatch_two_values w v1 v2)).
    destruct v1 as [| [| a s] |], v2 as [| [| b t] |]; try reflexivity.
    apply create_policy_returns.
Qed.

(** * Faults, missing arguments and empty arguments on every command line *)

(** C6, amended: every fault a request raises during one of the four
    operations is caught inside the operation and printed, and the
    operation returns; and on every command line the process leaves with
    status 0, unless the argument parser itself rejected the command line,
    which ends the process with status 2 after the usage and the error
    message and before any operation runs. *)
Theorem operation_faults_are_caught_and_printed (w : world) :
  (forall name,
      ending (start_ec2 w name) = Return tt /\
      ending (stop_ec2 w name) = Return tt) /\
  (forall bucket file, ending (upload_file_s3 w bucket file) = Return tt) /\
  (forall name document,
      ending (create_policy w name document) = Return tt) /\
  (forall name e,
      describe_instances_answer w (name_filter name) = Faults e ->
      sends_then_prints (start_ec2 w name)
        [DescribeInstances (name_filter name)]
        (report "Failed to retrieve instance ID: " e) /\
      sends_then_prints (stop_ec2 w name)
        [DescribeInstances (name_filter name)]
        (report "Failed to retrieve instance ID: " e)) /\
  (forall name ids e,
      ending (get_instance_id_by_name w name) = Return (Some ids) ->
      start_instances_answer w ids = Faults e ->
      sends_then_prints (start_ec2 w name)
        [DescribeInstances (name_filter name); StartInstances ids]
        (report "Failed to start instance(s): " e)) /\
  (forall name ids e,
      ending (get_instance_id_by_name w name) = Return (Some ids) ->
      stop_instances_answer w ids = Faults e ->
      sends_then_prints (stop_ec2 w name)
        [DescribeInstances (name_filter name); StopInstances ids]
        (report "Failed to stop instance(s): " e)) /\
  (forall bucket file e,
      file_exists w file = true ->
      upload_answer w file bucket file = Faults e ->
      sends_then_prints (upload_file_s3 w bucket file)
        [UploadFile file bucket file] (upload_report file e)) /\
  (forall name document e,
      create_policy_answer w name document = Faults e ->
      sends_then_prints (create_policy w name document)
        [CreatePolicy name document]
        (report "Failed to create policy: " e)) /\
  (forall argv,
      exit_status (main parse_command_line w argv) = 0%Z \/
      exists p e,
        main parse_command_line w argv
        = ([PrintUsage p; PrintError p e], Exit 2)).
Proof.
  unfold sends_then_prints.
  repeat match goal with |- _ /\ _ => split end.
  - intros name. split; [apply start_ec2_returns | apply stop_ec2_returns].
  - apply upload_file_s3_returns.
  - apply create_policy_returns.
  - intros name e Hfault.
    now rewrite start_ec2_run, stop_ec2_run, resolver_run, Hfault.
  - intros name ids e Hres Hfault.
    destruct (resolver_returns_nonempty w name ids Hres) as (Hne & Hev & _).
    rewrite start_ec2_run.
    destruct (get_instance_id_by_name w name) as [t o].
    simpl in Hres, Hev. subst t o.
    destruct ids as [| id rest]; [congruence |].
    now rewrite Hfault.
  - intros name ids e Hres Hfault.
    destruct (resolver_returns_nonempty w name ids Hres) as (Hne & Hev & _).
    rewrite stop_ec2_run.
    destruct (get_instance_id_by_name w name) as [t o].
    simpl in Hres, Hev. subst t o.
    destruct ids as [| id rest]; [congruence |].
    now rewrite Hfault.
  - intros bucket file e Hexists Hfault.
    now rewrite upload_file_s3_run, Hexists, Hfault.
  - intros name document e Hfault.
    now rewrite create_policy_run, Hfault.
  - intros argv.
    rewrite main_parse_command_line.
    destruct (parse_command_line argv) as [args | p | p e] eqn:Hparse.
    + left. unfold exit_status.
      now rewrite (dispatch_returns w argv args Hparse).
    + now left.
    + right. now exists p, e.
Qed.

Lemma operation_faults_are_caught_and_printed_witness :
  sends_then_prints (stop_ec2 demo_world "web-1")
    [DescribeInstances (name_filter "web-1");
     StopInstances ["i-0001"; "i-0002"]]
    "Failed to stop instance(s): UnauthorizedOperation".
Proof.
  destruct (operation_faults_are_caught_and_printed demo_world)
    as (_ & _ & _ & _ & _ & Hstop & _).
  apply (Hstop "web-1" ["i-0001"; "i-0002"]
               (ClientError "UnauthorizedOperation"));
    reflexivity.
Defined.

(** C7 as stated fails: [start-ec2 -h] is a recognized subcommand without
    its required argument; the program prints the help of the subcommand
    and leaves with status 0, without any error message. *)
Lemma help_option_hides_missing_argument :
  length (values_of ["-h"]) = 0%nat /\
  main parse_command_line demo_world ["start-ec2"; "-h"]
  = ([PrintHelp (SubParser "start-ec2")], Exit 0).
Proof. split; reflexivity. Qed.

(** C7, amended: a recognized subcommand given fewer values than it has
    required positionals never runs its operation and sends no request.
    Unless a help option stands before the first ["--"], its parser
    reports an error that lists exactly the positionals left without a
    value, and the process leaves with status 2.  With a help option
    there, the parser prints the help of the subcommand and leaves with
    status 0, or, when an argument is glued to the option, reports that
    argument as ignored and leaves with status 2. *)
Theorem missing_positional_is_rejected
  (w : world) (name : string) (dests rest : list string) :
  positionals_of subcommands name = Some dests ->
  (length (values_of rest) < length dests)%nat ->
  main parse_command_line w (name :: rest)
  = match help_before_dashes rest with
    | Some HelpOption => ([PrintHelp (SubParser name)], Exit 0)
    | Some (BadOption explicit) =>
        ([PrintUsage (SubParser name);
          PrintError (SubParser name) (IgnoredExplicitArgument explicit)],
         Exit 2)
    | _ =>
        ([PrintUsage (SubParser name);
          PrintError (SubParser name)
                     (MissingRequired (skipn (length (values_of rest)) dests))],
         Exit 2)
    end /\
  skipn (length (values_of rest)) dests <> [] /\
  incl (skipn (length (values_of rest)) dests) dests /\
  calls (events (main parse_command_line w (name :: rest))) = [].
Proof.
  intros Hname Hfew.
  assert (Hrun : main parse_command_line w (name :: rest)
    = match help_before_dashes rest with
      | Some HelpOption => ([PrintHelp (SubParser name)], Exit 0)
      | Some (BadOption explicit) =>
          ([PrintUsage (SubParser name);
            PrintError (SubParser name) (IgnoredExplicitArgument explicit)],
           Exit 2)
      | _ =>
          ([PrintUsage (SubParser name);
            PrintError (SubParser name)
              (MissingRequired (skipn (length (values_of rest)) dests))],
           Exit 2)
      end).
  { rewrite main_parse_command_line, (parse_named name dests rest Hname).
    unfold run_subcommand. rewrite Hname.
    pose proof (sub_scan_spec (length dests) rest [] [] NoValue
                  (Nat.le_0_l _) (Forall_nil _)) as Hspec.
    destruct (help_before_dashes rest) as [[| | explicit |] |];
      try (rewrite Hspec; reflexivity);
      destruct Hspec as (values & extras & -> & Hlen & _);
      simpl in Hlen; rewrite Nat.min_r in Hlen by lia;
      rewrite Hlen;
      now destruct (Nat.ltb_spec (length (values_of rest)) (length dests));
        [| lia]. }
  rewrite Hrun. split; [reflexivity | split; [| split]].
  - intros Hnil. apply (f_equal (@length string)) in Hnil.
    rewrite length_skipn in Hnil. simpl in Hnil. lia.
  - intros x Hx.
    rewrite <- (firstn_skipn (length (values_of rest)) dests).
    apply in_or_app. now right.
  - now destruct (help_before_dashes rest) as [[| | explicit |] |].
Qed.

Lemma missing_positional_is_rejected_witness :
  main parse_command_line demo_world ["upload-s3"; "-1"]
  = ([PrintUsage (SubParser "upload-s3");
      PrintError (SubParser "upload-s3") (MissingRequired ["file_name"])],
     Exit 2).
Proof.
  apply (missing_positional_is_rejected demo_world
           "upload-s3" ["bucket_name"; "file_name"] ["-1"]).
  - reflexivity.
  - simpl. lia.
Defined.

(** C10: whenever the parser accepts the command line of a recognized
    subcommand and one of its required positionals is the empty string,
    the dispatcher prints its own error for that subcommand and nothing
    else: the operation is not run and no request is sent. *)
Theorem empty_positional_is_treated_as_missing
  (w : world) (name : string) (dests rest : list string) (args : Namespace) :
  positionals_of subcommands name = Some dests ->
  parse_command_line (name :: rest) = Parsed args ->
  (exists dest,
      In dest dests /\ getattr args dest = Some (PyStr EmptyString)) ->
  parse_args parse_command_line (name :: rest) = ([], Return args) /\
  main parse_command_line w (name :: rest)
  = ([Print (dispatcher_error name)], Return tt).
Proof.
  intros Hname Hparse (dest & Hdest & Hempty).
  split.
  { unfold parse_args.
    destruct (existsb dashed (name :: rest)) eqn:Hplain;
      [| rewrite <- (parse_command_line_plain _ Hplain)];
      now rewrite Hparse. }
  rewrite main_parse_command_line, Hparse.
  rewrite (parse_named name dests rest Hname) in Hparse.
  destruct (run_subcommand_parsed _ _ _ _ Hparse)
    as (dests' & values & Hname' & Hlen & _ & ->).
  rewrite Hname in Hname'. injection Hname' as <-.
  destruct (positionals_of_subcommands name dests Hname)
    as [[-> ->] | [[-> ->] | [[-> ->] | [-> ->]]]];
    destruct values as [| v1 [| v2 [| v3 values]]]; try discriminate Hlen;
    simpl combine in *; simpl in Hdest.
  - destruct Hdest as [<- | []]. simpl in Hempty. injection Hempty as ->.
    now rewrite (proj1 (dispatch_one_value w _)).
  - destruct Hdest as [<- | []]. simpl in Hempty. injection Hempty as ->.
    now rewrite (proj2 (dispatch_one_value w _)).
  - rewrite (proj1 (dispatch_two_values w v1 v2)).
    destruct Hdest as [<- | [<- | []]]; simpl in Hempty;
      injection Hempty as ->; [reflexivity |].
    now destruct v1 as [| [| a s] |].
  - rewrite (proj2 (dispatch_two_values w v1 v2)).
    destruct Hdest as [<- | [<- | []]]; simpl in Hempty;
      injection Hempty as ->; [reflexivity |].
    now destruct v1 as [| [| a s] |].
Qed.

Lemma empty_positional_is_treated_as_missing_witness :
  parse_command_line ["upload-s3"; "-1"; EmptyString]
  = Parsed [("command", PyStr "upload-s3");
            ("bucket_name", PyStr "-1");
            ("file_name", PyStr EmptyString)] /\
  main parse_command_line demo_world ["upload-s3"; "-1"; EmptyString]
  = ([Print "Error: Both 'bucket_name' and 'file_name' are required for upload-s3"],
     Return tt).
Proof.
  split; [reflexivity |].
  apply (empty_positional_is_treated_as_missing demo_world
           "upload-s3" ["bucket_name"; "file_name"] ["-1"; EmptyString]
           [("command", PyStr "upload-s3");
            ("bucket_name", PyStr "-1");
            ("file_name", PyStr EmptyString)]).
  - reflexivity.
  - reflexivity.
  - exists "file_name". split; [simpl; tauto | reflexivity].
Defined.
